(** * i3 [src/log.c]: loglevels and the logging functions

    A shallow embedding of the logging module of i3: the three globals
    ([loglevel], [verbose], [errorfile] / [errorfilename]), the setters
    [init_logging], [set_verbosity], [add_loglevel], and the emitters
    [vlog], [verboselog], [errorlog], [debuglog].

    Conventions.
    - [uint64_t] and [int] values are integers of [Z]; every conversion
      between the two widths is written out ([to_uint64], [wrap_int]).
    - A C string is a [string]; as in memory, it ends at its first NUL
      byte (or at the end of the Rocq string).
    - A stream ([stdout], the error log) is the sequence of payloads written
      to it, one entry per [printf]-family call, in call order.
    - What libc, the locale, the file system and the build provide is
      gathered in the class [Host]. *)

From Stdlib Require Import ZArith List String Ascii Bool Lia.
Import ListNotations.

Local Open Scope string_scope.
Local Open Scope list_scope.
Local Open Scope Z_scope.

(** ** Machine integers *)

Module CInt.

(** [UINT64_MAX] of [<stdint.h>]. *)
Definition UINT64_MAX : Z := 2 ^ 64 - 1.

(** Conversion of an integer value to [uint64_t]: reduction modulo 2^64
    (for a negative [int] this is sign extension). *)
Definition to_uint64 (x : Z) : Z := x mod 2 ^ 64.

(** The value of a 32-bit two's complement [int] holding the low 32 bits
    of [x]. *)
Definition wrap_int (x : Z) : Z := (x + 2 ^ 31) mod 2 ^ 32 - 2 ^ 31.

(** [a << n] on operands of type [int].

    For [0 <= n < 32] the result is the low 32 bits of [a * 2^n] read as
    a signed [int]; this is what GCC and Clang define (GCC documents that
    it does not use the latitude ISO C gives for a signed shift into the
    sign bit) and what CompCert's semantics gives.  For a shift count
    outside the width of [int] ISO C leaves the behaviour undefined; the
    target decides what is computed (x86 masks the count to five bits,
    32-bit ARM yields 0), and the model takes that from [oversized]. *)
Definition shl (oversized : Z -> Z -> Z) (a n : Z) : Z :=
  if (0 <=? n) && (n <? 32) then wrap_int (Z.shiftl a n)
  else wrap_int (oversized a n).

(** Number of bits set among the low [w] bits of [x]. *)
Fixpoint popcount (w : nat) (x : Z) : nat :=
  match w with
  | O => O
  | S w' => ((if Z.odd x then 1 else 0) + popcount w' (Z.div2 x))%nat
  end.

End CInt.

(** ** C strings *)

Module CString.

Definition NUL : ascii := Ascii.zero.

(** The byte as [unsigned char], widened to [int]. *)
Definition code (c : ascii) : Z := Z.of_N (N_of_ascii c).

(** [tolower] in the C locale: only 'A'..'Z' are mapped. *)
Definition tolower (c : Z) : Z :=
  if (65 <=? c) && (c <=? 90) then c + 32 else c.

(** The byte a [char *] points to: NUL once the string is exhausted. *)
Definition peek (s : string) : ascii :=
  match s with
  | EmptyString => NUL
  | String c _ => c
  end.

(** [strcasecmp]: walk both strings, compare the lower-cased bytes,
    return their difference at the first position where they differ, and
    0 when the terminating NUL is reached on equal bytes. *)
Fixpoint strcasecmp (s1 s2 : string) : Z :=
  match s1, s2 with
  | String c1 r1, String c2 r2 =>
      let result := tolower (code c1) - tolower (code c2) in
      if result =? 0
      then (if code c1 =? 0 then 0 else strcasecmp r1 r2)
      else result
  | _, _ => tolower (code (peek s1)) - tolower (code (peek s2))
  end.

(** The lower-cased bytes of a C string up to its terminator: two strings
    compare equal under [strcasecmp] exactly when these agree. *)
Fixpoint casefold (s : string) : list Z :=
  match s with
  | EmptyString => []
  | String c r => if code c =? 0 then [] else tolower (code c) :: casefold r
  end.

End CString.

(** ** What the module takes from its host *)

(** [time_t]. *)
Definition time_t : Type := Z.

Class Host : Type := {
  (* the argument pack of a variadic call *)
  va_list : Type;
  (* the bytes [vprintf] / [vfprintf] produce for a format and its
     arguments *)
  vformat : string -> va_list -> string;
  (* the empty argument pack *)
  no_args : va_list;
  (* [strftime] of [localtime(&t)] under the process's locale *)
  strftime : string -> time_t -> string;
  (* [get_process_filename] of util.c; [None] is its NULL result *)
  get_process_filename : string -> option string;
  (* whether [fopen(path, "w")] succeeds *)
  fopen_w_succeeds : string -> bool;
  (* the array [loglevels] of the generated loglevels.h *)
  loglevels : list string;
  (* the format string the [ELOG] macro of log.h hands to [errorlog] *)
  ELOG_format : string -> string;
  (* what the target computes for an [int] shift by 32 or more *)
  shl_oversized : Z -> Z -> Z
}.

(** ** The state of the module *)

(** An output stream: what was written and not yet flushed, and what has
    reached the file. *)
Record FILE : Type := mkFILE {
  f_buffer : list string;
  f_flushed : list string
}.

Definition fputs_chunk (chunk : string) (f : FILE) : FILE :=
  mkFILE (f_buffer f ++ [chunk]) (f_flushed f).

Definition fflush (f : FILE) : FILE :=
  mkFILE [] (f_flushed f ++ f_buffer f).

(** The bytes of a sequence of writes. *)
Definition bytes_of (chunks : list string) : string :=
  fold_right String.append "" chunks.

Record log_state : Type := mkState {
  loglevel : Z;                      (* static uint64_t loglevel = 0;   *)
  verbose : bool;                    (* static bool verbose = true;     *)
  errorfile : option FILE;           (* static FILE *errorfile;         *)
  errorfilename : option string;     (* char *errorfilename;            *)
  stdout : list string               (* what was printed                *)
}.

Definition initial_state : log_state :=
  mkState 0 true None None [].

(** A call either returns, or faults (dereferences a null [FILE *]); the
    state carried by a fault is the one reached when it happened. *)
Inductive outcome : Type :=
  | Returns (s : log_state)
  | Faults (s : log_state).

Definition state_of (o : outcome) : log_state :=
  match o with
  | Returns s => s
  | Faults s => s
  end.

Definition returns (o : outcome) : bool :=
  match o with
  | Returns _ => true
  | Faults _ => false
  end.

Definition bind (o : outcome) (k : log_state -> outcome) : outcome :=
  match o with
  | Returns s => k s
  | Faults s => Faults s
  end.

Section Log.

Context {host : Host}.

(** *** [set_verbosity] *)
Definition set_verbosity (_verbose : bool) (s : log_state) : log_state :=
  mkState (loglevel s) _verbose (errorfile s) (errorfilename s) (stdout s).

(** *** [add_loglevel] *)

(** The [for] loop of [add_loglevel] from index [i] on, [rest] being
    [loglevels[i..]]: [continue] on a mismatch, set the bit and [break]
    on the first match.  [1 << (i+1)] is computed in [int] and converted
    to [uint64_t] by the compound assignment. *)
Fixpoint add_loglevel_loop (rest : list string) (i : Z) (level : string)
    (mask : Z) : Z :=
  match rest with
  | [] => mask
  | name :: rest' =>
      if negb (CString.strcasecmp name level =? 0)
      then add_loglevel_loop rest' (i + 1) level mask
      else Z.lor mask (CInt.to_uint64 (CInt.shl shl_oversized 1 (i + 1)))
  end.

(** The bit pattern the loop ORs into the mask when the match is at
    index [i]. *)
Definition level_bits (i : Z) : Z :=
  CInt.to_uint64 (CInt.shl shl_oversized 1 (i + 1)).

(** The effect of [add_loglevel(level)] on the value of [loglevel]. *)
Definition add_loglevel_mask (level : string) (mask : Z) : Z :=
  if CString.strcasecmp level "all" =? 0 then CInt.UINT64_MAX
  else add_loglevel_loop loglevels 0 level mask.

Definition add_loglevel (level : string) (s : log_state) : log_state :=
  mkState (add_loglevel_mask level (loglevel s)) (verbose s) (errorfile s)
          (errorfilename s) (stdout s).

(** *** [vlog] (without DEBUG_TIMING): the time prefix, then the
    message, on standard output; [t] is what [time(NULL)] returns. *)
Definition timebuf (t : time_t) : string := strftime "%x %X - " t.

Definition vlog (t : time_t) (fmt : string) (args : va_list)
    (s : log_state) : log_state :=
  mkState (loglevel s) (verbose s) (errorfile s) (errorfilename s)
          (stdout s ++ [timebuf t; vformat fmt args]).

(** *** [verboselog] *)
Definition verboselog (t : time_t) (fmt : string) (args : va_list)
    (s : log_state) : log_state :=
  if negb (verbose s) then s else vlog t fmt args s.

(** *** [errorlog]: [vlog], then [vfprintf(errorfile, ...)] and
    [fflush(errorfile)] with no test of [errorfile]. *)
Definition errorlog (t : time_t) (fmt : string) (args : va_list)
    (s : log_state) : outcome :=
  let s1 := vlog t fmt args s in
  match errorfile s1 with
  | None => Faults s1
  | Some f =>
      Returns (mkState (loglevel s1) (verbose s1)
                       (Some (fflush (fputs_chunk (vformat fmt args) f)))
                       (errorfilename s1) (stdout s1))
  end.

(** *** [debuglog] *)
Definition debuglog (lev : Z) (t : time_t) (fmt : string) (args : va_list)
    (s : log_state) : log_state :=
  if Z.land (loglevel s) lev =? 0 then s else vlog t fmt args s.

(** *** [init_logging] *)

(** The literal ["Could not initialize errorlog\n"]. *)
Definition could_not_initialize : string :=
  String.append "Could not initialize errorlog" (String (ascii_of_nat 10) "").

Definition init_logging (t : time_t) (s : log_state) : outcome :=
  let name := get_process_filename "errorlog" in
  let s1 := mkState (loglevel s) (verbose s) (errorfile s) name (stdout s) in
  match name with
  | None =>
      errorlog t (ELOG_format could_not_initialize) no_args s1
  | Some path =>
      Returns (mkState (loglevel s1) (verbose s1)
                       (if fopen_w_succeeds path then Some (mkFILE [] [])
                        else None)
                       (errorfilename s1) (stdout s1))
  end.

(** *** Sequences of calls *)
Inductive call : Type :=
| Init_logging (t : time_t)
| Set_verbosity (b : bool)
| Add_loglevel (level : string)
| Verboselog (t : time_t) (fmt : string) (args : va_list)
| Errorlog (t : time_t) (fmt : string) (args : va_list)
| Debuglog (lev : Z) (t : time_t) (fmt : string) (args : va_list).

Definition step (c : call) (s : log_state) : outcome :=
  match c with
  | Init_logging t => init_logging t s
  | Set_verbosity b => Returns (set_verbosity b s)
  | Add_loglevel level => Returns (add_loglevel level s)
  | Verboselog t fmt args => Returns (verboselog t fmt args s)
  | Errorlog t fmt args => errorlog t fmt args s
  | Debuglog lev t fmt args => Returns (debuglog lev t fmt args s)
  end.

Fixpoint run (cs : list call) (s : log_state) : outcome :=
  match cs with
  | [] => Returns s
  | c :: cs' => bind (step c s) (run cs')
  end.

(** The calls of a sequence that are made: all of them, or those up to
    and including the one that faults. *)
Fixpoint executed (cs : list call) (s : log_state) : list call :=
  match cs with
  | [] => []
  | c :: cs' =>
      c :: match step c s with
           | Returns s' => executed cs' s'
           | Faults _ => []
           end
  end.

(** What a call does to the value of [loglevel]. *)
Definition step_mask (c : call) (mask : Z) : Z :=
  match c with
  | Add_loglevel level => add_loglevel_mask level mask
  | _ => mask
  end.

(** The value of [loglevel] after enabling the names of [levels] in turn,
    starting from [mask]. *)
Definition enable_all (levels : list string) (mask : Z) : Z :=
  fold_left (fun m level => add_loglevel_mask level m) levels mask.

(** The names passed to [add_loglevel] in a sequence of calls. *)
Fixpoint levels_of (cs : list call) : list string :=
  match cs with
  | [] => []
  | Add_loglevel level :: cs' => level :: levels_of cs'
  | _ :: cs' => levels_of cs'
  end.

End Log.

(** ** What a sequence of calls asks for *)

Section Sessions.

Context {host : Host}.

(** The payloads the [errorlog] calls of a sequence hand to [vfprintf],
    in call order. *)
Fixpoint error_messages (cs : list call) : list string :=
  match cs with
  | [] => []
  | Errorlog _ fmt args :: cs' => vformat fmt args :: error_messages cs'
  | _ :: cs' => error_messages cs'
  end.

(** Whether a sequence calls [init_logging]. *)
Fixpoint calls_init (cs : list call) : bool :=
  match cs with
  | [] => false
  | Init_logging _ :: _ => true
  | _ :: cs' => calls_init cs'
  end.

(** The flag the [set_verbosity] calls of a sequence leave, [v] being the
    flag before it. *)
Definition last_verbosity (cs : list call) (v : bool) : bool :=
  fold_left (fun flag c =>
               match c with
               | Set_verbosity b => b
               | _ => flag
               end) cs v.

End Sessions.

(** The eight ways of writing ["all"]. *)
Definition all_spellings : list string :=
  ["all"; "alL"; "aLl"; "aLL"; "All"; "AlL"; "ALl"; "ALL"].

(** ** Concrete hosts and sessions

    A Linux/x86-64 build: formats are printed as they are (they carry no
    conversion), the clock is rendered as a fixed-width stamp, and an [int]
    shift by 32 or more uses the count modulo 32, as the [shl] instruction
    does. *)

Definition x86_shl (a n : Z) : Z := Z.shiftl a (n mod 32).

Definition linux_host (levels : list string) (path : option string)
    (opens : bool) : Host :=
  {| va_list := unit;
     vformat := fun fmt _ => fmt;
     no_args := tt;
     strftime := fun _ _ => "01/01/10 00:00:00 - ";
     get_process_filename := fun _ => path;
     fopen_w_succeeds := fun _ => opens;
     loglevels := levels;
     ELOG_format := fun fmt => String.append "ERROR: " fmt;
     shl_oversized := x86_shl |}.

(** The host of scenario S1. *)
Definition event_ipc_host : Host :=
  linux_host ["event"; "ipc"] (Some "/tmp/i3/errorlog.1234") true.

(** A host whose [get_process_filename] fails. *)
Definition no_path_host : Host :=
  linux_host ["event"; "ipc"] None false.

(** A host where the path resolves and [fopen] fails. *)
Definition no_open_host : Host :=
  linux_host ["event"; "ipc"] (Some "/tmp/i3/errorlog.1234") false.

(** A host whose list has an entry written like the reserved name. *)
Definition all_entry_host : Host :=
  linux_host ["event"; "All"; "ipc"] (Some "/tmp/i3/errorlog.1234") true.

(** A list of 31 names, and a host built with it. *)
Definition thirty_one_levels : list string :=
  ["assignments"; "cfgparse"; "click"; "cmdparse"; "con"; "config";
   "ewmh"; "floating"; "handlers"; "ipc"; "load_layout"; "log"; "main";
   "manage"; "match"; "move"; "output"; "randr"; "render"; "resizing";
   "sighandler"; "startup"; "tree"; "util"; "window"; "workspace"; "x";
   "xcb"; "xcursor"; "xinerama"; "debug"].

Definition wide_host : Host :=
  linux_host thirty_one_levels (Some "/tmp/i3/errorlog.1234") true.

(** Scenario S1 after its [add_loglevel("ipc")]. *)
Definition ipc_enabled : log_state :=
  add_loglevel (host := event_ipc_host) "ipc" initial_state.

(** The state [init_logging] leaves when the error log could be opened. *)
Definition opened_state : log_state :=
  mkState 0 true (Some (mkFILE [] [])) (Some "/tmp/i3/errorlog.1234") [].

(** A session that runs to its end. *)
Definition session : list (call (host := event_ipc_host)) :=
  [Init_logging 0; Add_loglevel "ipc"; Set_verbosity false;
   Errorlog (host := event_ipc_host) 0 "err" tt; Add_loglevel "EVENT";
   Debuglog (host := event_ipc_host) 4 0 "hi" tt].

(** A session without [init_logging], mixing the three emitters. *)
Definition emit_session : list (call (host := event_ipc_host)) :=
  [Errorlog (host := event_ipc_host) 0 "one" tt;
   Verboselog (host := event_ipc_host) 0 "info" tt;
   Add_loglevel "all";
   Debuglog (host := event_ipc_host) 2 0 "dbg" tt;
   Set_verbosity false;
   Errorlog (host := event_ipc_host) 0 "two" tt].

(** An error log that already holds a line. *)
Definition used_state : log_state :=
  mkState 4 true (Some (mkFILE [] ["old"])) (Some "/tmp/i3/errorlog.1234")
          ["earlier"].

(** A session on a host where the error log cannot be opened, with no
    [errorlog] call. *)
Definition quiet_session : list (call (host := no_open_host)) :=
  [Init_logging 0; Add_loglevel "ipc";
   Debuglog (host := no_open_host) 4 0 "hi" tt;
   Verboselog (host := no_open_host) 0 "info" tt].


(** A list of 33 names whose first entry is written like the reserved
    name, and a host built with it. *)
Definition thirty_three_levels : list string :=
  ["All"; "l01"; "l02"; "l03"; "l04"; "l05"; "l06"; "l07"; "l08"; "l09";
   "l10"; "l11"; "l12"; "l13"; "l14"; "l15"; "l16"; "l17"; "l18"; "l19";
   "l20"; "l21"; "l22"; "l23"; "l24"; "l25"; "l26"; "l27"; "l28"; "l29";
   "l30"; "l31"; "l32"].

Definition reserved_wide_host : Host :=
  linux_host thirty_three_levels (Some "/tmp/i3/errorlog.1234") true.

(** ** Properties of [strcasecmp] *)

Module CStringFacts.
Import CString.

Lemma code_range (c : ascii) : 0 <= code c < 256.
Proof.
  unfold code.
  pose proof (N_ascii_bounded c) as Hb.
  lia.
Qed.

Lemma tolower_zero (x : Z) : tolower x = 0 <-> x = 0.
Proof.
  unfold tolower.
  destruct ((65 <=? x) && (x <=? 90)) eqn:E; [|tauto].
  apply andb_true_iff in E. lia.
Qed.

Lemma strcasecmp_casefold (s1 s2 : string) :
  strcasecmp s1 s2 = 0 <-> casefold s1 = casefold s2.
Proof.
  revert s2. induction s1 as [|c1 r1 IH]; intros [|c2 r2]; simpl.
  - change (code NUL) with 0. simpl. tauto.
  - change (code NUL) with 0. change (tolower 0) with 0.
    pose proof (tolower_zero (code c2)) as Hz.
    destruct (code c2 =? 0) eqn:E.
    + apply Z.eqb_eq in E. split; [reflexivity | lia].
    + apply Z.eqb_neq in E. split; [lia | discriminate].
  - change (code NUL) with 0. change (tolower 0) with 0.
    pose proof (tolower_zero (code c1)) as Hz.
    destruct (code c1 =? 0) eqn:E.
    + apply Z.eqb_eq in E. split; [reflexivity | lia].
    + apply Z.eqb_neq in E. split; [lia | discriminate].
  - pose proof (tolower_zero (code c1)) as Hz1.
    pose proof (tolower_zero (code c2)) as Hz2.
    destruct (tolower (code c1) - tolower (code c2) =? 0) eqn:D.
    + apply Z.eqb_eq in D.
      destruct (Z.eqb_spec (code c1) 0) as [E1|E1];
        destruct (Z.eqb_spec (code c2) 0) as [E2|E2].
      * tauto.
      * exfalso. lia.
      * exfalso. lia.
      * rewrite IH. split.
        -- intros ->. f_equal. lia.
        -- intros H. now inversion H.
    + apply Z.eqb_neq in D.
      destruct (Z.eqb_spec (code c1) 0) as [E1|E1];
        destruct (Z.eqb_spec (code c2) 0) as [E2|E2].
      * exfalso. rewrite E1, E2 in D. lia.
      * split; [lia | discriminate].
      * split; [lia | discriminate].
      * split; [lia|]. intros H. inversion H. lia.
Qed.

Lemma strcasecmp_sym (s1 s2 : string) :
  strcasecmp s1 s2 = 0 -> strcasecmp s2 s1 = 0.
Proof.
  rewrite !strcasecmp_casefold. auto.
Qed.

Lemma strcasecmp_trans (s1 s2 s3 : string) :
  strcasecmp s1 s2 = 0 -> strcasecmp s2 s3 = 0 -> strcasecmp s1 s3 = 0.
Proof.
  rewrite !strcasecmp_casefold. congruence.
Qed.

End CStringFacts.

(** ** Properties of the mask arithmetic *)

Module CIntFacts.
Import CInt.

Lemma UINT64_MAX_ones : UINT64_MAX = Z.ones 64.
Proof. reflexivity. Qed.

Lemma UINT64_MAX_testbit (b : Z) :
  0 <= b < 64 -> Z.testbit UINT64_MAX b = true.
Proof.
  intros Hb. rewrite UINT64_MAX_ones. apply Z.ones_spec_low. lia.
Qed.

Lemma land_UINT64_MAX (lev : Z) :
  0 <= lev < 2 ^ 64 -> Z.land UINT64_MAX lev = lev.
Proof.
  intros Hl. rewrite UINT64_MAX_ones, Z.land_comm, Z.land_ones by lia.
  apply Z.mod_small. lia.
Qed.

Lemma to_uint64_range (x : Z) : 0 <= to_uint64 x < 2 ^ 64.
Proof. unfold to_uint64. apply Z.mod_pos_bound. lia. Qed.

Lemma shl_one_small (f : Z -> Z -> Z) (n : Z) :
  0 <= n < 31 -> to_uint64 (shl f 1 n) = 2 ^ n.
Proof.
  intros Hn. unfold shl, to_uint64, wrap_int.
  replace ((0 <=? n) && (n <? 32)) with true
    by (symmetry; apply andb_true_iff; split; [apply Z.leb_le | apply Z.ltb_lt]; lia).
  rewrite Z.shiftl_1_l.
  assert (H1 : 0 < 2 ^ n) by (apply Z.pow_pos_nonneg; lia).
  assert (H2 : 2 ^ n <= 2 ^ 30) by (apply Z.pow_le_mono_r; lia).
  change (2 ^ 30) with 1073741824 in H2.
  change (2 ^ 31) with 2147483648.
  change (2 ^ 32) with 4294967296.
  change (2 ^ 64) with 18446744073709551616.
  rewrite (Z.mod_small (2 ^ n + 2147483648)) by lia.
  rewrite Z.mod_small by lia. lia.
Qed.

Lemma lor_uint64_range (a b : Z) :
  0 <= a < 2 ^ 64 -> 0 <= b < 2 ^ 64 -> 0 <= Z.lor a b < 2 ^ 64.
Proof.
  intros Ha Hb.
  assert (E : Z.lor a b = Z.lor a b mod 2 ^ 64).
  { rewrite <- Z.land_ones, Z.land_lor_distr_l, !Z.land_ones by lia.
    now rewrite !Z.mod_small by lia. }
  rewrite E. apply Z.mod_pos_bound. lia.
Qed.

(** [1 << 31] in [int] is [INT_MIN]; as a [uint64_t] it has bits 31 to 63
    set. *)
Lemma shl_one_31 (f : Z -> Z -> Z) :
  to_uint64 (shl f 1 31) = 2 ^ 64 - 2 ^ 31.
Proof. reflexivity. Qed.

Lemma shl_one_31_low_bits (f : Z -> Z -> Z) (b : Z) :
  b < 31 -> Z.testbit (to_uint64 (shl f 1 31)) b = false.
Proof.
  intros Hb. rewrite shl_one_31.
  change (2 ^ 64 - 2 ^ 31) with ((2 ^ 33 - 1) * 2 ^ 31).
  destruct (Z.ltb_spec b 0) as [Hneg|Hpos].
  - now apply Z.testbit_neg_r.
  - apply Z.mul_pow2_bits_low. lia.
Qed.

Lemma land_pow2 (k lev : Z) :
  0 <= k -> Z.land (2 ^ k) lev = if Z.testbit lev k then 2 ^ k else 0.
Proof.
  intros Hk. apply Z.bits_inj'. intros n Hn.
  rewrite Z.land_spec.
  destruct (Z.eq_dec n k) as [->|Hne].
  - rewrite Z.pow2_bits_true by lia.
    destruct (Z.testbit lev k); [now rewrite Z.pow2_bits_true by lia|].
    now rewrite Z.bits_0.
  - rewrite Z.pow2_bits_false by lia.
    destruct (Z.testbit lev k); [now rewrite Z.pow2_bits_false by lia|].
    now rewrite Z.bits_0.
Qed.

End CIntFacts.

(** ** Streams *)

Lemma append_empty_r (a : string) : String.append a "" = a.
Proof. induction a as [|c a IH]; simpl; [reflexivity | now rewrite IH]. Qed.

Lemma append_assoc (a b c : string) :
  String.append (String.append a b) c = String.append a (String.append b c).
Proof. induction a as [|x a IH]; simpl; [reflexivity | now rewrite IH]. Qed.

Lemma bytes_of_app (l1 l2 : list string) :
  bytes_of (l1 ++ l2) = String.append (bytes_of l1) (bytes_of l2).
Proof.
  induction l1 as [|x l1 IH]; [reflexivity|].
  simpl. rewrite IH. symmetry. apply append_assoc.
Qed.

Lemma bytes_of_snoc (l : list string) (x : string) :
  bytes_of (l ++ [x]) = String.append (bytes_of l) x.
Proof.
  rewrite bytes_of_app. unfold bytes_of at 2. simpl.
  now rewrite append_empty_r.
Qed.

(** ** The emitters *)

Section Emitters.

Context {host : Host}.

Lemma app_two_neq (A : Type) (l : list A) (x y : A) : l ++ [x; y] <> l.
Proof.
  intros H. apply (f_equal (@List.length A)) in H.
  rewrite length_app in H. simpl in H. lia.
Qed.

Lemma stdout_vlog (t : time_t) (fmt : string) (args : va_list) (s : log_state) :
  stdout (vlog t fmt args s) = stdout s ++ [timebuf t; vformat fmt args].
Proof. reflexivity. Qed.

Lemma stdout_errorlog (t : time_t) (fmt : string) (args : va_list)
    (s : log_state) :
  stdout (state_of (errorlog t fmt args s))
  = stdout s ++ [timebuf t; vformat fmt args].
Proof.
  unfold errorlog. simpl. destruct (errorfile s); reflexivity.
Qed.


(** X14: with the error log open, under either flag [errorlog] returns
    having printed the [strftime] stamp and the message, and leaves the
    flag as it was; [verboselog] prints the same two pieces when the flag
    is set and leaves the state as it is when the flag is cleared. *)
Theorem verbosity_gate_open_log (s : log_state) (f : FILE) (b : bool)
    (t : time_t) (fmt : string) (args : va_list) :
  errorfile s = Some f ->
  verboselog t fmt args (set_verbosity false s) = set_verbosity false s
  /\ stdout (verboselog t fmt args (set_verbosity true s))
     = stdout s ++ [strftime "%x %X - " t; vformat fmt args]
  /\ exists s',
       errorlog t fmt args (set_verbosity b s) = Returns s'
       /\ stdout s' = stdout s ++ [strftime "%x %X - " t; vformat fmt args]
       /\ verbose s' = b.
Proof.
  intros Hf. split; [reflexivity|]. split; [reflexivity|].
  unfold errorlog. simpl. rewrite Hf.
  eexists. split; [reflexivity|]. now split.
Qed.

(** C3: with the error log open, [errorlog] returns; standard output
    received the time prefix and the message; the error log received the
    message alone, after whatever it held, and nothing is left in its
    buffer. *)
Theorem errorlog_file_present (s : log_state) (f : FILE) (t : time_t)
    (fmt : string) (args : va_list) :
  errorfile s = Some f ->
  exists s' f',
    errorlog t fmt args s = Returns s'
    /\ errorfile s' = Some f'
    /\ f_flushed f' = (f_flushed f ++ f_buffer f) ++ [vformat fmt args]
    /\ bytes_of (f_flushed f')
       = String.append (bytes_of (f_flushed f ++ f_buffer f))
                       (vformat fmt args)
    /\ f_buffer f' = []
    /\ stdout s' = stdout s ++ [timebuf t; vformat fmt args]
    /\ loglevel s' = loglevel s /\ verbose s' = verbose s
    /\ errorfilename s' = errorfilename s.
Proof.
  intros Hf. unfold errorlog. simpl. rewrite Hf.
  eexists. exists (fflush (fputs_chunk (vformat fmt args) f)).
  split; [reflexivity|]. simpl.
  repeat split.
  - apply app_assoc.
  - now rewrite app_assoc, bytes_of_snoc.
Qed.

End Emitters.

(** ** [add_loglevel] *)

Section AddLoglevel.

Context {host : Host}.

Lemma add_loglevel_loop_no_match (rest : list string) (i : Z)
    (level : string) (mask : Z) :
  Forall (fun name => CString.strcasecmp name level <> 0) rest ->
  add_loglevel_loop rest i level mask = mask.
Proof.
  intros H. revert i.
  induction H as [|name rest Hn _ IH]; intros i; simpl; [reflexivity|].
  destruct (Z.eqb_spec (CString.strcasecmp name level) 0) as [E|E];
    [contradiction | apply IH].
Qed.

Lemma add_loglevel_loop_first_match (before after : list string)
    (name level : string) (i mask : Z) :
  Forall (fun n => CString.strcasecmp n level <> 0) before ->
  CString.strcasecmp name level = 0 ->
  add_loglevel_loop (before ++ name :: after) i level mask
  = Z.lor mask (level_bits (i + Z.of_nat (List.length before))).
Proof.
  intros H Hm. revert i.
  induction H as [|x before Hx _ IH]; intros i.
  - simpl. rewrite Hm. simpl. now rewrite Z.add_0_r.
  - cbn [app add_loglevel_loop List.length].
    destruct (Z.eqb_spec (CString.strcasecmp x level) 0) as [E|E];
      [contradiction|].
    cbn [negb]. rewrite IH. do 2 f_equal. lia.
Qed.

Lemma add_loglevel_loop_monotone (rest : list string) (i : Z) (level : string)
    (mask b : Z) :
  Z.testbit mask b = true ->
  Z.testbit (add_loglevel_loop rest i level mask) b = true.
Proof.
  intros Hb. revert i. induction rest as [|name rest IH]; intros i; simpl.
  - exact Hb.
  - destruct (negb (CString.strcasecmp name level =? 0)); [apply IH|].
    rewrite Z.lor_spec, Hb. reflexivity.
Qed.

Lemma add_loglevel_loop_idempotent (rest : list string) (i : Z)
    (level : string) (mask : Z) :
  add_loglevel_loop rest i level (add_loglevel_loop rest i level mask)
  = add_loglevel_loop rest i level mask.
Proof.
  revert i. induction rest as [|name rest IH]; intros i; simpl.
  - reflexivity.
  - destruct (negb (CString.strcasecmp name level =? 0)); [apply IH|].
    now rewrite <- Z.lor_assoc, Z.lor_diag.
Qed.

Lemma add_loglevel_loop_range (rest : list string) (i : Z) (level : string)
    (mask : Z) :
  0 <= mask < 2 ^ 64 ->
  0 <= add_loglevel_loop rest i level mask < 2 ^ 64.
Proof.
  intros Hm. revert i. induction rest as [|name rest IH]; intros i; simpl.
  - exact Hm.
  - destruct (negb (CString.strcasecmp name level =? 0)); [apply IH|].
    pose proof (CIntFacts.to_uint64_range
                  (CInt.shl shl_oversized 1 (i + 1))) as Hr.
    now apply CIntFacts.lor_uint64_range.
Qed.

(** A state whose mask is a [uint64_t] value keeps one under
    [add_loglevel]. *)
Lemma add_loglevel_mask_range (level : string) (mask : Z) :
  0 <= mask < 2 ^ 64 -> 0 <= add_loglevel_mask level mask < 2 ^ 64.
Proof.
  intros Hm. unfold add_loglevel_mask.
  destruct (CString.strcasecmp level "all" =? 0).
  - unfold CInt.UINT64_MAX. lia.
  - now apply add_loglevel_loop_range.
Qed.

(** C8: a second [add_loglevel] with the same name changes nothing, be
    the name ["all"], a name of the list, or neither. *)
Theorem add_loglevel_idempotent (level : string) (s : log_state) :
  add_loglevel level (add_loglevel level s) = add_loglevel level s
  /\ loglevel (add_loglevel level (add_loglevel level s))
     = loglevel (add_loglevel level s).
Proof.
  assert (E : add_loglevel level (add_loglevel level s)
              = add_loglevel level s).
  { unfold add_loglevel, add_loglevel_mask. simpl.
    destruct (CString.strcasecmp level "all" =? 0); [reflexivity|].
    now rewrite add_loglevel_loop_idempotent. }
  split; [exact E | now rewrite E].
Qed.

(** C9: a name that matches neither ["all"] nor any entry of [loglevels]
    leaves the whole state as it was (the mask, standard output, the error
    log), and the call returns. *)
Theorem add_loglevel_unknown (level : string) (s : log_state) :
  CString.strcasecmp level "all" <> 0 ->
  Forall (fun name => CString.strcasecmp name level <> 0) loglevels ->
  add_loglevel level s = s
  /\ loglevel (add_loglevel level s) = loglevel s
  /\ stdout (add_loglevel level s) = stdout s
  /\ errorfile (add_loglevel level s) = errorfile s
  /\ step (Add_loglevel level) s = Returns s.
Proof.
  intros Hall Hlist.
  assert (E : add_loglevel level s = s).
  { unfold add_loglevel, add_loglevel_mask.
    destruct (Z.eqb_spec (CString.strcasecmp level "all") 0) as [E|_];
      [contradiction|].
    rewrite add_loglevel_loop_no_match by exact Hlist.
    now destruct s. }
  unfold step. rewrite E. repeat split.
Qed.

Lemma all_spellings_match (level : string) :
  In level all_spellings -> CString.strcasecmp level "all" = 0.
Proof.
  unfold all_spellings. simpl.
  intros [<-|[<-|[<-|[<-|[<-|[<-|[<-|[<-|[]]]]]]]]]; reflexivity.
Qed.

Lemma add_loglevel_reserved (level : string) (s : log_state) :
  CString.strcasecmp level "all" = 0 ->
  loglevel (add_loglevel level s) = CInt.UINT64_MAX.
Proof.
  intros H. unfold add_loglevel, add_loglevel_mask. simpl. now rewrite H.
Qed.

(** C5: for ["all"] in any letter case, [add_loglevel] leaves [loglevel]
    at [UINT64_MAX], all 64 bits set, and [debuglog] then prints for every
    nonzero [uint64_t] value of [lev]. *)
Theorem add_loglevel_all (level : string) (s : log_state) (lev : Z)
    (t : time_t) (fmt : string) (args : va_list) :
  In level all_spellings ->
  0 < lev < 2 ^ 64 ->
  loglevel (add_loglevel level s) = CInt.UINT64_MAX
  /\ (forall b : Z, 0 <= b < 64 ->
        Z.testbit (loglevel (add_loglevel level s)) b = true)
  /\ debuglog lev t fmt args (add_loglevel level s)
     = vlog t fmt args (add_loglevel level s)
  /\ stdout (debuglog lev t fmt args (add_loglevel level s))
     = stdout s ++ [timebuf t; vformat fmt args].
Proof.
  intros Hin Hlev.
  pose proof (add_loglevel_reserved level s (all_spellings_match level Hin))
    as Hmax.
  assert (Hgate : debuglog lev t fmt args (add_loglevel level s)
                  = vlog t fmt args (add_loglevel level s)).
  { unfold debuglog. rewrite Hmax, CIntFacts.land_UINT64_MAX by lia.
    destruct (Z.eqb_spec lev 0); [lia | reflexivity]. }
  split; [exact Hmax|]. split.
  - intros b Hb. rewrite Hmax. now apply CIntFacts.UINT64_MAX_testbit.
  - split; [exact Hgate|]. now rewrite Hgate.
Qed.

Lemma add_loglevel_mask_monotone (level : string) (mask b : Z) :
  0 <= b < 64 ->
  Z.testbit mask b = true ->
  Z.testbit (add_loglevel_mask level mask) b = true.
Proof.
  intros Hr Hb. unfold add_loglevel_mask.
  destruct (CString.strcasecmp level "all" =? 0).
  - now apply CIntFacts.UINT64_MAX_testbit.
  - now apply add_loglevel_loop_monotone.
Qed.

Lemma enable_all_monotone (levels : list string) (mask b : Z) :
  0 <= b < 64 ->
  Z.testbit mask b = true ->
  Z.testbit (enable_all levels mask) b = true.
Proof.
  intros Hr. revert mask.
  induction levels as [|level levels IH]; intros mask Hb; simpl.
  - exact Hb.
  - apply IH. now apply add_loglevel_mask_monotone.
Qed.

Lemma step_loglevel (c : call) (s : log_state) :
  loglevel (state_of (step c s)) = step_mask c (loglevel s).
Proof.
  destruct c as [t|b|level|t fmt args|t fmt args|lev t fmt args]; simpl.
  - unfold init_logging, errorlog. simpl.
    destruct (get_process_filename "errorlog"); simpl; [reflexivity|].
    destruct (errorfile s); reflexivity.
  - reflexivity.
  - reflexivity.
  - unfold verboselog. destruct (verbose s); reflexivity.
  - unfold errorlog. simpl. destruct (errorfile s); reflexivity.
  - unfold debuglog. destruct (Z.land (loglevel s) lev =? 0); reflexivity.
Qed.

Lemma run_loglevel (cs : list call) (s : log_state) :
  loglevel (state_of (run cs s))
  = enable_all (levels_of (executed cs s)) (loglevel s).
Proof.
  revert s. induction cs as [|c cs IH]; intros s; [reflexivity|].
  pose proof (step_loglevel c s) as Hstep.
  cbn [run executed].
  destruct (step c s) as [s1|s1]; cbn [bind state_of] in *.
  - rewrite IH.
    destruct c; cbn [levels_of step_mask enable_all fold_left] in *;
      now rewrite Hstep.
  - destruct c; cbn [levels_of step_mask enable_all fold_left] in *;
      exact Hstep.
Qed.

Lemma run_executed (cs : list call) (s : log_state) :
  returns (run cs s) = true -> executed cs s = cs.
Proof.
  revert s. induction cs as [|c cs IH]; intros s; [reflexivity|].
  cbn [run executed].
  destruct (step c s) as [s1|s1]; cbn [bind returns].
  - intros H. now rewrite IH.
  - discriminate.
Qed.

(** C7: after any sequence of calls, [loglevel] is what enabling, in
    order, the names given to the [add_loglevel] calls that were made
    yields from the starting mask, nothing else of the history matters
    (when the sequence runs to its end these are all its [add_loglevel]
    calls); and a bit of the 64-bit mask that is set stays set, through
    one [add_loglevel] and through any sequence of calls. *)
Theorem loglevel_history (cs : list call) (s : log_state) (b : Z) :
  0 <= b < 64 ->
  loglevel (state_of (run cs s))
  = enable_all (levels_of (executed cs s)) (loglevel s)
  /\ (returns (run cs s) = true ->
      loglevel (state_of (run cs s))
      = enable_all (levels_of cs) (loglevel s))
  /\ (forall level : string,
        Z.testbit (loglevel s) b = true ->
        Z.testbit (loglevel (add_loglevel level s)) b = true)
  /\ (Z.testbit (loglevel s) b = true ->
      Z.testbit (loglevel (state_of (run cs s))) b = true).
Proof.
  intros Hb. split; [apply run_loglevel|]. split; [|split].
  - intros Hret. now rewrite run_loglevel, run_executed.
  - intros level Hset. simpl. now apply add_loglevel_mask_monotone.
  - intros Hset. rewrite run_loglevel. now apply enable_all_monotone.
Qed.

(** The loop either finds no entry, or stops at the first matching one. *)
Lemma first_match_cases (rest : list string) (level : string) :
  Forall (fun n => CString.strcasecmp n level <> 0) rest
  \/ exists before name after,
       rest = before ++ name :: after
       /\ Forall (fun n => CString.strcasecmp n level <> 0) before
       /\ CString.strcasecmp name level = 0.
Proof.
  induction rest as [|x rest IH]; [left; constructor|].
  destruct (Z.eq_dec (CString.strcasecmp x level) 0) as [E|E].
  - right. exists [], x, rest. repeat split; [constructor | exact E].
  - destruct IH as [IH|(before & name & after & -> & Hb & Hm)].
    + left. now constructor.
    + right. exists (x :: before), name, after.
      repeat split; [now constructor | exact Hm].
Qed.

(** Where the [int] shift is within range, a first match at index [i]
    sets bit [i+1] and nothing else, and the gate of [debuglog] opens for
    exactly the values it admitted before and those holding bit [i+1]. *)
Lemma add_loglevel_sets_bit (before after : list string)
    (name level : string) (s : log_state) :
  loglevels = before ++ name :: after ->
  Forall (fun n => CString.strcasecmp n level <> 0) before ->
  CString.strcasecmp name level = 0 ->
  CString.strcasecmp level "all" <> 0 ->
  (List.length before < 30)%nat ->
  loglevel (add_loglevel level s)
  = Z.lor (loglevel s) (2 ^ (Z.of_nat (List.length before) + 1))
  /\ (forall lev : Z,
        Z.land (loglevel (add_loglevel level s)) lev <> 0
        <-> (Z.land (loglevel s) lev <> 0
             \/ Z.testbit lev (Z.of_nat (List.length before) + 1) = true)).
Proof.
  intros Hl Hb Hm Hall Hlen.
  assert (E : loglevel (add_loglevel level s)
              = Z.lor (loglevel s)
                      (2 ^ (Z.of_nat (List.length before) + 1))).
  { unfold add_loglevel, add_loglevel_mask. simpl.
    destruct (Z.eqb_spec (CString.strcasecmp level "all") 0) as [|_];
      [contradiction|].
    rewrite Hl, add_loglevel_loop_first_match by assumption.
    unfold level_bits. now rewrite CIntFacts.shl_one_small by lia. }
  split; [exact E|]. intros lev. rewrite E.
  rewrite Z.land_lor_distr_l, Z.lor_eq_0_iff, CIntFacts.land_pow2 by lia.
  assert (Hp : 0 < 2 ^ (Z.of_nat (List.length before) + 1))
    by (apply Z.pow_pos_nonneg; lia).
  destruct (Z.testbit lev (Z.of_nat (List.length before) + 1)).
  - split; [now right | lia].
  - split.
    + intros H. left. intros H0. apply H. now split.
    + intros [H|H]; [|discriminate]. intros [H0 _]. contradiction.
Qed.

(** X15: when entry [i] of [loglevels] is a spelling of ["all"],
    [add_loglevel("all")] takes the first branch and sets all 64 bits; so
    does every name that matches that entry, which the loop therefore
    never reaches through its name; and, for a list of at most 31 entries
    (where the [int] shift is within range), a name that is not a spelling
    of ["all"] leaves bit [i+1] as it was. *)
Theorem all_is_reserved (i : nat) (entry level : string) (s : log_state) :
  nth_error loglevels i = Some entry ->
  CString.strcasecmp entry "all" = 0 ->
  loglevel (add_loglevel "all" s) = CInt.UINT64_MAX
  /\ (forall b : Z, 0 <= b < 64 ->
        Z.testbit (loglevel (add_loglevel "all" s)) b = true)
  /\ (CString.strcasecmp entry level = 0 ->
      loglevel (add_loglevel level s) = CInt.UINT64_MAX)
  /\ ((List.length loglevels <= 31)%nat ->
      CString.strcasecmp level "all" <> 0 ->
      Z.testbit (loglevel (add_loglevel level s)) (Z.of_nat i + 1)
      = Z.testbit (loglevel s) (Z.of_nat i + 1)).
Proof.
  intros Hnth Hentry.
  assert (Hall : loglevel (add_loglevel "all" s) = CInt.UINT64_MAX)
    by (now apply add_loglevel_reserved).
  split; [exact Hall|]. split; [|split].
  - intros b Hb. rewrite Hall. now apply CIntFacts.UINT64_MAX_testbit.
  - intros Hlevel. apply add_loglevel_reserved.
    apply CStringFacts.strcasecmp_trans with (s2 := entry);
      [now apply CStringFacts.strcasecmp_sym | exact Hentry].
  - intros Hlen Hnot. unfold add_loglevel, add_loglevel_mask. simpl.
    destruct (Z.eqb_spec (CString.strcasecmp level "all") 0) as [|_];
      [contradiction|].
    destruct (first_match_cases loglevels level)
      as [Hnone|(before & name & after & Hl & Hb & Hm)].
    + now rewrite add_loglevel_loop_no_match.
    + rewrite Hl, add_loglevel_loop_first_match by assumption.
      rewrite Z.lor_spec. simpl.
      assert (Hj : List.length before <> i).
      { intros <-. rewrite Hl, nth_error_app2, Nat.sub_diag in Hnth by lia.
        simpl in Hnth. injection Hnth as ->.
        apply Hnot.
        apply CStringFacts.strcasecmp_trans with (s2 := entry);
          [now apply CStringFacts.strcasecmp_sym | exact Hentry]. }
      assert (Hjlen : (List.length before < 31)%nat).
      { rewrite Hl, length_app in Hlen. simpl in Hlen. lia. }
      assert (Hilen : (i < 31)%nat).
      { assert (i < List.length loglevels)%nat
          by (apply nth_error_Some; congruence). lia. }
      assert (Hbit : Z.testbit (level_bits (Z.of_nat (List.length before)))
                               (Z.of_nat i + 1) = false).
      { unfold level_bits.
        destruct (Nat.eq_dec (List.length before) 30) as [E30|N30].
        - rewrite E30. change (Z.of_nat 30 + 1) with 31.
          apply CIntFacts.shl_one_31_low_bits. lia.
        - rewrite CIntFacts.shl_one_small by lia.
          apply Z.pow2_bits_false. lia. }
      rewrite Hbit. apply orb_false_r.
Qed.

End AddLoglevel.

(** ** The module without an error log *)

Section NoErrorLog.

Context {host : Host}.

Lemma errorlog_null_file (t : time_t) (fmt : string) (args : va_list)
    (s : log_state) :
  errorfile s = None -> errorlog t fmt args s = Faults (vlog t fmt args s).
Proof.
  intros H. unfold errorlog. simpl. now rewrite H.
Qed.

Lemma init_logging_no_path (t : time_t) (s : log_state) :
  get_process_filename "errorlog" = None ->
  errorfile s = None ->
  returns (init_logging t s) = false.
Proof.
  intros Hp Hf. unfold init_logging. rewrite Hp.
  now rewrite errorlog_null_file.
Qed.

End NoErrorLog.

(** C1: in a fresh process, [errorlog] prints its line and then hands the
    null [errorfile] to [vfprintf]: the call faults.  So does
    [init_logging] when [get_process_filename] returns NULL, through its
    [ELOG], after printing the one line; and so does the first [errorlog]
    after an [init_logging] whose [fopen] failed. *)
Theorem errorlog_null_stream :
  errorlog (host := event_ipc_host) 0 "x" tt initial_state
  = Faults (mkState 0 true None None ["01/01/10 00:00:00 - "; "x"])
  /\ returns (errorlog (host := event_ipc_host) 0 "x" tt initial_state)
     = false
  /\ init_logging (host := no_path_host) 0 initial_state
     = Faults (mkState 0 true None None
                 ["01/01/10 00:00:00 - ";
                  String.append "ERROR: " could_not_initialize])
  /\ init_logging (host := no_open_host) 0 initial_state
     = Returns (mkState 0 true None (Some "/tmp/i3/errorlog.1234") [])
  /\ returns (run (host := no_open_host)
                [Init_logging 0; Errorlog (host := no_open_host) 0 "x" tt]
                initial_state)
     = false.
Proof.
  repeat split.
Qed.

(** C2: with 31 names in [loglevels], enabling the last one (index 30)
    from the empty mask evaluates [1 << 31] in [int]; the mask becomes
    0xFFFFFFFF80000000, bits 31 to 63, 33 bits in all, and [debuglog] then
    prints for [lev = 1 << 32], a bit no call enabled. *)
Theorem add_loglevel_index_30 :
  nth_error (loglevels (Host := wide_host)) 30 = Some "debug"
  /\ (List.length (loglevels (Host := wide_host)) <= 63)%nat
  /\ loglevel (add_loglevel (host := wide_host) "debug" initial_state)
     = 0xFFFFFFFF80000000
  /\ CInt.popcount 64
       (loglevel (add_loglevel (host := wide_host) "debug" initial_state))
     = 33%nat
  /\ loglevel (add_loglevel (host := wide_host) "debug" initial_state)
     <> 2 ^ 31
  /\ Z.testbit
       (loglevel (add_loglevel (host := wide_host) "debug" initial_state))
       32 = true
  /\ stdout (debuglog (host := wide_host) (2 ^ 32) 0 "x" tt
               (add_loglevel (host := wide_host) "debug" initial_state))
     = ["01/01/10 00:00:00 - "; "x"].
Proof.
  repeat match goal with |- _ /\ _ => split end; try reflexivity.
  - simpl. lia.
  - vm_compute. discriminate.
Qed.


(** C10: with 33 names in [loglevels], the first one written ["All"]
    (index 0, bit 1), [add_loglevel("all")] sets all 64 bits; but
    enabling the last name (index 32) evaluates [1 << 33] in [int], which
    the x86 shift computes as [1 << 1]: the mask becomes 2, bit 1 alone,
    the bit of the entry ["All"], and [debuglog] then prints for
    [lev = 2]. *)
Theorem reserved_bit_enabled_alone :
  nth_error (loglevels (Host := reserved_wide_host)) 0 = Some "All"
  /\ CString.strcasecmp "All" "all" = 0
  /\ (List.length (loglevels (Host := reserved_wide_host)) <= 63)%nat
  /\ loglevel (add_loglevel (host := reserved_wide_host) "all" initial_state)
     = CInt.UINT64_MAX
  /\ loglevel (add_loglevel (host := reserved_wide_host) "All" initial_state)
     = CInt.UINT64_MAX
  /\ nth_error (loglevels (Host := reserved_wide_host)) 32 = Some "l32"
  /\ CString.strcasecmp "l32" "all" <> 0
  /\ loglevel (add_loglevel (host := reserved_wide_host) "l32" initial_state)
     = 2
  /\ CInt.popcount 64
       (loglevel (add_loglevel (host := reserved_wide_host) "l32"
                               initial_state)) = 1%nat
  /\ Z.testbit
       (loglevel (add_loglevel (host := reserved_wide_host) "l32"
                               initial_state)) (0 + 1) = true
  /\ stdout (debuglog (host := reserved_wide_host) 2 0 "x" tt
               (add_loglevel (host := reserved_wide_host) "l32"
                             initial_state))
     = ["01/01/10 00:00:00 - "; "x"].
Proof.
  repeat match goal with |- _ /\ _ => split end; try reflexivity.
  - simpl. lia.
  - vm_compute. discriminate.
Qed.

(** ** The theorems at concrete inputs *)

Lemma errorlog_file_present_witness :
  errorfile opened_state = Some (mkFILE [] [])
  /\ exists s' f',
       errorlog (host := event_ipc_host) 0 "boom" tt opened_state
       = Returns s'
       /\ errorfile s' = Some f'
       /\ f_flushed f' = ["boom"]
       /\ f_buffer f' = []
       /\ stdout s' = ["01/01/10 00:00:00 - "; "boom"].
Proof.
  split; [reflexivity|].
  destruct (errorlog_file_present (host := event_ipc_host) opened_state
              (mkFILE [] []) 0 "boom" tt eq_refl)
    as (s' & f' & Hret & Hfile & Hflushed & _ & Hbuffer & Hout & _).
  exists s', f'. repeat split; assumption.
Defined.


Lemma add_loglevel_all_witness :
  In "ALL" all_spellings
  /\ 0 < 0x8000000000000000 < 2 ^ 64
  /\ loglevel (add_loglevel (host := event_ipc_host) "ALL" initial_state)
     = CInt.UINT64_MAX
  /\ stdout (debuglog (host := event_ipc_host) 0x8000000000000000 0 "b" tt
               (add_loglevel (host := event_ipc_host) "ALL" initial_state))
     = ["01/01/10 00:00:00 - "; "b"]
  /\ stdout (debuglog (host := event_ipc_host) 0x1 0 "a" tt
               (add_loglevel (host := event_ipc_host) "ALL" initial_state))
     = ["01/01/10 00:00:00 - "; "a"].
Proof.
  assert (Hin : In "ALL" all_spellings)
    by (unfold all_spellings; simpl; tauto).
  assert (H63 : 0 < 0x8000000000000000 < 2 ^ 64) by (vm_compute; split; reflexivity).
  assert (H0 : 0 < 0x1 < 2 ^ 64) by (vm_compute; split; reflexivity).
  destruct (add_loglevel_all (host := event_ipc_host) "ALL" initial_state
              0x8000000000000000 0 "b" tt Hin H63) as (Hmax & _ & _ & Hb).
  destruct (add_loglevel_all (host := event_ipc_host) "ALL" initial_state
              0x1 0 "a" tt Hin H0) as (_ & _ & _ & Ha).
  repeat split; assumption || reflexivity.
Defined.

Lemma loglevel_history_witness :
  0 <= 2 < 64
  /\ returns (run session initial_state) = true
  /\ loglevel (state_of (run session initial_state))
     = enable_all (host := event_ipc_host) ["ipc"; "EVENT"] 0
  /\ loglevel (state_of (run session initial_state)) = 6
  /\ Z.testbit (loglevel (state_of (run session ipc_enabled))) 2 = true.
Proof.
  assert (H2 : 0 <= 2 < 64) by lia.
  destruct (loglevel_history session initial_state 2 H2)
    as (_ & Hall & _ & _).
  destruct (loglevel_history session ipc_enabled 2 H2)
    as (_ & _ & _ & Hkeep).
  split; [exact H2|]. split; [reflexivity|].
  split; [exact (Hall eq_refl)|]. split; [reflexivity | exact (Hkeep eq_refl)].
Defined.

Lemma add_loglevel_unknown_witness :
  CString.strcasecmp "focus" "all" <> 0
  /\ Forall (fun name => CString.strcasecmp name "focus" <> 0)
       (loglevels (Host := event_ipc_host))
  /\ add_loglevel (host := event_ipc_host) "focus" ipc_enabled = ipc_enabled
  /\ step (Add_loglevel (host := event_ipc_host) "focus") ipc_enabled
     = Returns ipc_enabled.
Proof.
  assert (Hall : CString.strcasecmp "focus" "all" <> 0)
    by (vm_compute; discriminate).
  assert (Hlist : Forall (fun name => CString.strcasecmp name "focus" <> 0)
                    (loglevels (Host := event_ipc_host)))
    by (repeat constructor; vm_compute; discriminate).
  destruct (add_loglevel_unknown (host := event_ipc_host) "focus" ipc_enabled
              Hall Hlist) as (Hsame & _ & _ & _ & Hstep).
  repeat split; assumption.
Defined.

Lemma all_is_reserved_witness :
  nth_error (loglevels (Host := all_entry_host)) 1 = Some "All"
  /\ CString.strcasecmp "All" "all" = 0
  /\ loglevel (add_loglevel (host := all_entry_host) "all" initial_state)
     = CInt.UINT64_MAX
  /\ loglevel (add_loglevel (host := all_entry_host) "All" initial_state)
     = CInt.UINT64_MAX
  /\ Z.testbit
       (loglevel (add_loglevel (host := all_entry_host) "ipc" initial_state))
       2 = false.
Proof.
  destruct (all_is_reserved (host := all_entry_host) 1 "All" "All"
              initial_state eq_refl eq_refl) as (Hall & _ & Hname & _).
  destruct (all_is_reserved (host := all_entry_host) 1 "All" "ipc"
              initial_state eq_refl eq_refl) as (_ & _ & _ & Hbit).
  split; [reflexivity|]. split; [reflexivity|]. split; [exact Hall|].
  split; [exact (Hname eq_refl)|].
  assert (Hlen : (List.length (loglevels (Host := all_entry_host)) <= 31)%nat)
    by (simpl; lia).
  assert (Hnot : CString.strcasecmp "ipc" "all" <> 0)
    by (vm_compute; discriminate).
  exact (Hbit Hlen Hnot).
Defined.

(** ** Further properties of [add_loglevel] *)

Lemma lor_UINT64_MAX (x : Z) :
  0 <= x < 2 ^ 64 -> Z.lor CInt.UINT64_MAX x = CInt.UINT64_MAX.
Proof.
  intros Hx. rewrite CIntFacts.UINT64_MAX_ones.
  apply Z.bits_inj'. intros n Hn. rewrite Z.lor_spec.
  destruct (Z.ltb_spec n 64) as [Hlt|Hge].
  - now rewrite Z.ones_spec_low by lia.
  - rewrite Z.ones_spec_high by lia. simpl.
    destruct (Z.eq_dec x 0) as [->|Hx0]; [apply Z.bits_0|].
    apply Z.bits_above_log2; [lia|].
    apply Z.lt_le_trans with 64; [|exact Hge].
    apply Z.log2_lt_pow2; lia.
Qed.

Section AddLoglevelAlgebra.

Context {host : Host}.

Lemma add_loglevel_loop_lor (rest : list string) (i : Z) (level : string)
    (mask : Z) :
  add_loglevel_loop rest i level mask
  = Z.lor mask (add_loglevel_loop rest i level 0).
Proof.
  revert i. induction rest as [|name rest IH]; intros i; simpl.
  - now rewrite Z.lor_0_r.
  - destruct (negb (CString.strcasecmp name level =? 0)); [apply IH|].
    now rewrite ?Z.lor_0_l.
Qed.

Lemma add_loglevel_loop_zero_range (rest : list string) (i : Z)
    (level : string) :
  0 <= add_loglevel_loop rest i level 0 < 2 ^ 64.
Proof. apply add_loglevel_loop_range. lia. Qed.

Lemma add_loglevel_mask_saturated (level : string) :
  add_loglevel_mask level CInt.UINT64_MAX = CInt.UINT64_MAX.
Proof.
  unfold add_loglevel_mask.
  destruct (CString.strcasecmp level "all" =? 0); [reflexivity|].
  rewrite add_loglevel_loop_lor.
  apply lor_UINT64_MAX, add_loglevel_loop_zero_range.
Qed.

Lemma enable_all_saturated (levels : list string) :
  enable_all levels CInt.UINT64_MAX = CInt.UINT64_MAX.
Proof.
  induction levels as [|level levels IH]; [reflexivity|].
  unfold enable_all in *. cbn [fold_left].
  now rewrite add_loglevel_mask_saturated.
Qed.

Lemma add_loglevel_loop_same_matches (rest : list string) (i : Z)
    (level1 level2 : string) (mask : Z) :
  CString.strcasecmp level1 level2 = 0 ->
  add_loglevel_loop rest i level1 mask = add_loglevel_loop rest i level2 mask.
Proof.
  intros Heq. revert i. induction rest as [|name rest IH]; intros i; simpl.
  - reflexivity.
  - destruct (Z.eqb_spec (CString.strcasecmp name level1) 0) as [E1|E1];
      destruct (Z.eqb_spec (CString.strcasecmp name level2) 0) as [E2|E2];
      simpl.
    + reflexivity.
    + exfalso. apply E2.
      now apply CStringFacts.strcasecmp_trans with (s2 := level1).
    + exfalso. apply E1.
      apply CStringFacts.strcasecmp_trans with (s2 := level2);
        [exact E2 | now apply CStringFacts.strcasecmp_sym].
    + apply IH.
Qed.

(** X1: [add_loglevel] does not see letter case: two names that
    [strcasecmp] finds equal have the same effect on every state. *)
Theorem add_loglevel_case_insensitive (level1 level2 : string)
    (s : log_state) :
  CString.strcasecmp level1 level2 = 0 ->
  add_loglevel level1 s = add_loglevel level2 s.
Proof.
  intros Heq. unfold add_loglevel, add_loglevel_mask. f_equal.
  destruct (Z.eqb_spec (CString.strcasecmp level1 "all") 0) as [E1|E1];
    destruct (Z.eqb_spec (CString.strcasecmp level2 "all") 0) as [E2|E2].
  - reflexivity.
  - exfalso. apply E2.
    apply CStringFacts.strcasecmp_trans with (s2 := level1);
      [now apply CStringFacts.strcasecmp_sym | exact E1].
  - exfalso. apply E1.
    now apply CStringFacts.strcasecmp_trans with (s2 := level2).
  - now apply add_loglevel_loop_same_matches.
Qed.

(** X2: the order of two [add_loglevel] calls does not matter, whatever
    the two names are. *)
Theorem add_loglevel_commutes (level1 level2 : string) (s : log_state) :
  add_loglevel level1 (add_loglevel level2 s)
  = add_loglevel level2 (add_loglevel level1 s).
Proof.
  unfold add_loglevel. simpl. f_equal.
  unfold add_loglevel_mask.
  destruct (CString.strcasecmp level1 "all" =? 0);
    destruct (CString.strcasecmp level2 "all" =? 0).
  - reflexivity.
  - rewrite add_loglevel_loop_lor. symmetry.
    apply lor_UINT64_MAX, add_loglevel_loop_zero_range.
  - rewrite add_loglevel_loop_lor.
    apply lor_UINT64_MAX, add_loglevel_loop_zero_range.
  - rewrite (add_loglevel_loop_lor _ _ level1 (add_loglevel_loop _ _ _ _)).
    rewrite (add_loglevel_loop_lor _ _ level2 (add_loglevel_loop _ _ _ _)).
    rewrite (add_loglevel_loop_lor _ _ level2 (loglevel s)).
    rewrite (add_loglevel_loop_lor _ _ level1 (loglevel s)).
    rewrite <- !Z.lor_assoc. f_equal. apply Z.lor_comm.
Qed.

(** X3: once a spelling of ["all"] was enabled, no later sequence of
    calls changes the mask: it is [UINT64_MAX] at the end of the sequence,
    or where the sequence faults. *)
Theorem all_is_final (level : string) (cs : list call) (s : log_state) :
  CString.strcasecmp level "all" = 0 ->
  loglevel (state_of (run cs (add_loglevel level s))) = CInt.UINT64_MAX.
Proof.
  intros Hall. rewrite run_loglevel, add_loglevel_reserved by exact Hall.
  apply enable_all_saturated.
Qed.

End AddLoglevelAlgebra.

(** ** Which bits [add_loglevel] sets *)

Lemma int_min_high_bits (b : Z) :
  31 <= b < 64 -> Z.testbit (2 ^ 64 - 2 ^ 31) b = true.
Proof.
  intros Hb. change (2 ^ 64 - 2 ^ 31) with (Z.shiftl (Z.ones 33) 31).
  rewrite Z.shiftl_spec by lia. apply Z.ones_spec_low. lia.
Qed.

Section AddLoglevelBits.

Context {host : Host}.

Lemma add_loglevel_mask_bit_origin (level : string) (mask b : Z) :
  (List.length loglevels <= 30)%nat ->
  CString.strcasecmp level "all" <> 0 ->
  Z.testbit (add_loglevel_mask level mask) b = true ->
  Z.testbit mask b = true
  \/ (1 <= b <= Z.of_nat (List.length loglevels)
      /\ exists name,
           nth_error loglevels (Z.to_nat (b - 1)) = Some name
           /\ CString.strcasecmp name level = 0).
Proof.
  intros Hlen Hnot. unfold add_loglevel_mask.
  destruct (Z.eqb_spec (CString.strcasecmp level "all") 0) as [|_];
    [contradiction|].
  destruct (first_match_cases loglevels level)
    as [Hnone|(before & name & after & Hl & Hb & Hm)].
  - rewrite add_loglevel_loop_no_match by exact Hnone. now left.
  - rewrite Hl, add_loglevel_loop_first_match by assumption.
    assert (Hj : (List.length before < 30)%nat).
    { rewrite Hl, length_app in Hlen. simpl in Hlen. lia. }
    unfold level_bits. rewrite CIntFacts.shl_one_small by lia.
    rewrite Z.lor_spec. intros Hbit.
    apply orb_true_iff in Hbit. destruct Hbit as [Hbit|Hbit]; [now left|].
    right.
    rewrite Z.pow2_bits_eqb in Hbit by lia. apply Z.eqb_eq in Hbit.
    subst b. split; [rewrite length_app; simpl List.length; lia|].
    exists name. split; [|exact Hm].
    replace (Z.to_nat (0 + Z.of_nat (List.length before) + 1 - 1))
      with (List.length before) by lia.
    rewrite nth_error_app2 by lia. now rewrite Nat.sub_diag.
Qed.

(** X4: with at most 30 names in [loglevels], a bit that is set after
    enabling a series of names, none of them a spelling of ["all"], was
    set before or is bit [j+1] of an entry [j] that one of the names
    matches: bit 0 and the bits beyond the list are never set. *)
Theorem enabled_bits_were_requested (levels : list string) (mask b : Z) :
  (List.length loglevels <= 30)%nat ->
  Forall (fun level => CString.strcasecmp level "all" <> 0) levels ->
  Z.testbit (enable_all levels mask) b = true ->
  Z.testbit mask b = true
  \/ (1 <= b <= Z.of_nat (List.length loglevels)
      /\ exists level name,
           In level levels
           /\ nth_error loglevels (Z.to_nat (b - 1)) = Some name
           /\ CString.strcasecmp name level = 0).
Proof.
  intros Hlen Hnot. revert mask.
  induction Hnot as [|level levels Hlevel _ IH]; intros mask Hbit.
  - now left.
  - unfold enable_all in Hbit. cbn [fold_left] in Hbit.
    destruct (IH _ Hbit) as [Hprev|(Hr & l & name & Hin & Hnth & Hm)].
    + destruct (add_loglevel_mask_bit_origin level mask b Hlen Hlevel Hprev)
        as [Hm0|(Hr & name & Hnth & Hm)]; [now left|].
      right. split; [exact Hr|]. exists level, name.
      repeat split; [now left | exact Hnth | exact Hm].
    + right. split; [exact Hr|]. exists l, name.
      repeat split; [now right | exact Hnth | exact Hm].
Qed.

(** X5: when the first entry a name matches is at index [i <= 29] and
    the name is not a spelling of ["all"], [add_loglevel] changes bit
    [i+1] to 1 and no other bit of the mask. *)
Theorem add_loglevel_exact_bit (before after : list string)
    (name level : string) (s : log_state) (b : Z) :
  loglevels = before ++ name :: after ->
  Forall (fun n => CString.strcasecmp n level <> 0) before ->
  CString.strcasecmp name level = 0 ->
  CString.strcasecmp level "all" <> 0 ->
  (List.length before < 30)%nat ->
  Z.testbit (loglevel (add_loglevel level s)) b
  = Z.testbit (loglevel s) b || (b =? Z.of_nat (List.length before) + 1).
Proof.
  intros Hl Hb Hm Hall Hlen.
  destruct (add_loglevel_sets_bit before after name level s Hl Hb Hm Hall Hlen)
    as [E _].
  rewrite E, Z.lor_spec. f_equal.
  rewrite Z.pow2_bits_eqb by lia. apply Z.eqb_sym.
Qed.

(** X6: when the first entry a name matches is at index 30 and the name
    is not a spelling of ["all"], [add_loglevel] ORs the sign-extended
    [INT_MIN] into the mask: bits 31 to 63 are all set afterwards, and the
    bits below 31 are as before. *)
Theorem add_loglevel_sign_extends (before after : list string)
    (name level : string) (s : log_state) (b : Z) :
  loglevels = before ++ name :: after ->
  Forall (fun n => CString.strcasecmp n level <> 0) before ->
  CString.strcasecmp name level = 0 ->
  CString.strcasecmp level "all" <> 0 ->
  List.length before = 30%nat ->
  loglevel (add_loglevel level s) = Z.lor (loglevel s) (2 ^ 64 - 2 ^ 31)
  /\ (31 <= b < 64 -> Z.testbit (loglevel (add_loglevel level s)) b = true)
  /\ (b < 31 ->
      Z.testbit (loglevel (add_loglevel level s)) b
      = Z.testbit (loglevel s) b).
Proof.
  intros Hl Hb Hm Hall Hlen.
  assert (E : loglevel (add_loglevel level s)
              = Z.lor (loglevel s) (2 ^ 64 - 2 ^ 31)).
  { unfold add_loglevel, add_loglevel_mask. simpl.
    destruct (Z.eqb_spec (CString.strcasecmp level "all") 0) as [|_];
      [contradiction|].
    rewrite Hl, add_loglevel_loop_first_match by assumption.
    unfold level_bits. rewrite Hlen.
    change (0 + Z.of_nat 30 + 1) with 31.
    now rewrite CIntFacts.shl_one_31. }
  split; [exact E|]. split.
  - intros Hr. rewrite E, Z.lor_spec, int_min_high_bits by exact Hr.
    apply orb_true_r.
  - intros Hr. rewrite E, Z.lor_spec.
    rewrite <- (CIntFacts.shl_one_31 shl_oversized).
    rewrite CIntFacts.shl_one_31_low_bits by exact Hr.
    apply orb_false_r.
Qed.

End AddLoglevelBits.

(** ** Sequences of calls *)

Section SessionFacts.

Context {host : Host}.

Lemma step_verbose (c : call) (s : log_state) :
  verbose (state_of (step c s))
  = match c with
    | Set_verbosity b => b
    | _ => verbose s
    end.
Proof.
  destruct c as [t|b|level|t fmt args|t fmt args|lev t fmt args]; simpl.
  - unfold init_logging, errorlog. simpl.
    destruct (get_process_filename "errorlog"); simpl; [reflexivity|].
    destruct (errorfile s); reflexivity.
  - reflexivity.
  - reflexivity.
  - unfold verboselog. destruct (negb (verbose s)); reflexivity.
  - unfold errorlog. simpl. destruct (errorfile s); reflexivity.
  - unfold debuglog. destruct (Z.land (loglevel s) lev =? 0); reflexivity.
Qed.

(** X8: the verbosity flag after a sequence of calls is the argument of
    the last [set_verbosity] made, or the flag at the start when there was
    none: no other function of the module writes it. *)
Theorem verbose_history (cs : list call) (s : log_state) :
  verbose (state_of (run cs s)) = last_verbosity (executed cs s) (verbose s).
Proof.
  revert s. induction cs as [|c cs IH]; intros s; [reflexivity|].
  pose proof (step_verbose c s) as Hstep.
  cbn [run executed]. unfold last_verbosity in *.
  destruct (step c s) as [s1|s1]; cbn [bind state_of fold_left] in *.
  - rewrite IH. now rewrite Hstep.
  - exact Hstep.
Qed.

Lemma step_error_log (c : call) (s : log_state) (flushed : list string) :
  errorfile s = Some (mkFILE [] flushed) ->
  calls_init [c] = false ->
  exists s',
    step c s = Returns s'
    /\ errorfile s' = Some (mkFILE [] (flushed ++ error_messages [c]))
    /\ errorfilename s' = errorfilename s.
Proof.
  intros Hf Hinit.
  destruct c as [t|b|level|t fmt args|t fmt args|lev t fmt args];
    cbn [calls_init] in Hinit; try discriminate; cbn [step error_messages].
  - eexists. split; [reflexivity|]. simpl. now rewrite app_nil_r.
  - eexists. split; [reflexivity|]. simpl. now rewrite app_nil_r.
  - eexists. split; [reflexivity|]. rewrite app_nil_r.
    unfold verboselog. destruct (verbose s); simpl; now split.
  - unfold errorlog. simpl. rewrite Hf.
    eexists. split; [reflexivity|]. simpl. now split.
  - eexists. split; [reflexivity|]. rewrite app_nil_r.
    unfold debuglog. destruct (Z.land (loglevel s) lev =? 0); simpl;
      now split.
Qed.

Lemma calls_init_cons (c : call) (cs : list call) :
  calls_init (c :: cs) = false ->
  calls_init [c] = false /\ calls_init cs = false.
Proof.
  destruct c; cbn [calls_init]; intros H; try discriminate; now split.
Qed.

Lemma error_messages_cons (c : call) (cs : list call) :
  error_messages (c :: cs) = error_messages [c] ++ error_messages cs.
Proof. destruct c; reflexivity. Qed.

Lemma error_log_accumulates_aux (cs : list call) (s : log_state)
    (flushed : list string) :
  errorfile s = Some (mkFILE [] flushed) ->
  calls_init cs = false ->
  exists s',
    run cs s = Returns s'
    /\ errorfile s' = Some (mkFILE [] (flushed ++ error_messages cs))
    /\ errorfilename s' = errorfilename s.
Proof.
  revert s flushed. induction cs as [|c cs IH]; intros s flushed Hf Hinit.
  - exists s. simpl. rewrite app_nil_r. now repeat split.
  - apply calls_init_cons in Hinit. destruct Hinit as [Hc Hcs].
    destruct (step_error_log c s flushed Hf Hc) as (s1 & Hstep & Hf1 & Hn1).
    destruct (IH s1 _ Hf1 Hcs) as (s' & Hrun & Hf' & Hn').
    exists s'. cbn [run]. rewrite Hstep. cbn [bind].
    split; [exact Hrun|]. split.
    + now rewrite Hf', (error_messages_cons c cs), app_assoc.
    + now rewrite Hn'.
Qed.

(** X9: with the error log open and nothing pending in it, a sequence of
    calls that does not call [init_logging] runs to its end, and leaves in
    the error log what it held followed by the messages of the [errorlog]
    calls, in call order, without their time prefix, all flushed;
    [verboselog] and [debuglog] add nothing to it. *)
Theorem error_log_accumulates (cs : list call) (s : log_state)
    (flushed : list string) :
  errorfile s = Some (mkFILE [] flushed) ->
  calls_init cs = false ->
  exists s',
    run cs s = Returns s'
    /\ errorfile s' = Some (mkFILE [] (flushed ++ error_messages cs))
    /\ errorfilename s' = errorfilename s.
Proof.
  revert s flushed. induction cs as [|c cs IH]; intros s flushed Hf Hinit.
  - exists s. simpl. rewrite app_nil_r. now repeat split.
  - apply calls_init_cons in Hinit. destruct Hinit as [Hc Hcs].
    destruct (step_error_log c s flushed Hf Hc) as (s1 & Hstep & Hf1 & Hn1).
    destruct (IH s1 _ Hf1 Hcs) as (s' & Hrun & Hf' & Hn').
    exists s'. cbn [run]. rewrite Hstep. cbn [bind].
    split; [exact Hrun|]. split.
    + now rewrite Hf', (error_messages_cons c cs), app_assoc.
    + now rewrite Hn'.
Qed.

(** X10: when [get_process_filename] gives a path and [fopen] succeeds,
    [init_logging] followed by calls other than [init_logging] runs to its
    end; the error log then holds the messages of the [errorlog] calls
    made since, and nothing of what it held before; [errorfilename] is the
    path. *)
Theorem error_log_since_init (path : string) (t : time_t) (cs : list call)
    (s : log_state) :
  get_process_filename "errorlog" = Some path ->
  fopen_w_succeeds path = true ->
  calls_init cs = false ->
  exists s',
    run (Init_logging t :: cs) s = Returns s'
    /\ errorfile s' = Some (mkFILE [] (error_messages cs))
    /\ errorfilename s' = Some path.
Proof.
  intros Hpath Hopen Hinit. cbn [run step]. unfold init_logging.
  rewrite Hpath, Hopen. cbn [bind].
  match goal with
  | |- exists s', run cs ?s0 = _ /\ _ =>
      destruct (error_log_accumulates_aux cs s0 [] eq_refl Hinit)
        as (s' & Hrun & Hf & Hn)
  end.
  exists s'. split; [exact Hrun|]. split; [exact Hf | exact Hn].
Qed.

End SessionFacts.

(** ** Faults over a session *)

Section SessionFaults.

Context {host : Host}.

Lemma step_keeps_file (path : string) (c : call) (s : log_state) :
  get_process_filename "errorlog" = Some path ->
  fopen_w_succeeds path = true ->
  errorfile s <> None ->
  exists s', step c s = Returns s' /\ errorfile s' <> None.
Proof.
  intros Hpath Hopen Hf.
  destruct c as [t|b|level|t fmt args|t fmt args|lev t fmt args];
    cbn [step].
  - unfold init_logging. rewrite Hpath, Hopen.
    eexists. split; [reflexivity | discriminate].
  - eexists. split; [reflexivity | exact Hf].
  - eexists. split; [reflexivity | exact Hf].
  - eexists. split; [reflexivity|].
    unfold verboselog. destruct (negb (verbose s)); exact Hf.
  - unfold errorlog. simpl. destruct (errorfile s) as [f|]; [|contradiction].
    eexists. split; [reflexivity | discriminate].
  - eexists. split; [reflexivity|].
    unfold debuglog. destruct (Z.land (loglevel s) lev =? 0); exact Hf.
Qed.

Lemma run_keeps_file (path : string) (cs : list call) (s : log_state) :
  get_process_filename "errorlog" = Some path ->
  fopen_w_succeeds path = true ->
  errorfile s <> None ->
  exists s', run cs s = Returns s' /\ errorfile s' <> None.
Proof.
  intros Hpath Hopen. revert s.
  induction cs as [|c cs IH]; intros s Hf.
  - now exists s.
  - destruct (step_keeps_file path c s Hpath Hopen Hf) as (s1 & Hstep & Hf1).
    cbn [run]. rewrite Hstep. cbn [bind]. now apply IH.
Qed.

(** X11: when [get_process_filename] gives a path and [fopen] succeeds,
    nothing that follows an [init_logging] faults: every sequence of
    calls, further [init_logging] calls included, runs to its end with
    the error log open. *)
Theorem initialised_never_faults (path : string) (t : time_t)
    (cs : list call) (s : log_state) :
  get_process_filename "errorlog" = Some path ->
  fopen_w_succeeds path = true ->
  returns (run (Init_logging t :: cs) s) = true
  /\ errorfile (state_of (run (Init_logging t :: cs) s)) <> None.
Proof.
  intros Hpath Hopen. cbn [run step]. unfold init_logging.
  rewrite Hpath, Hopen. cbn [bind].
  match goal with
  | |- returns (run cs ?s0) = _ /\ _ =>
      destruct (run_keeps_file path cs s0 Hpath Hopen) as (s' & Hrun & Hf);
        [simpl; discriminate|]
  end.
  rewrite Hrun. now split.
Qed.

(** X12: where no error log can be opened ([fopen] fails for whatever
    path [get_process_filename] gives), a sequence of calls started
    without an error log runs to its end only if it makes no [errorlog]
    call, and the error log is still absent then. *)
Theorem no_error_log_no_errorlog (cs : list call) (s : log_state) :
  (forall path, get_process_filename "errorlog" = Some path ->
                fopen_w_succeeds path = false) ->
  errorfile s = None ->
  returns (run cs s) = true ->
  error_messages cs = [] /\ errorfile (state_of (run cs s)) = None.
Proof.
  intros Hhost. revert s.
  induction cs as [|c cs IH]; intros s Hf Hret; [now split|].
  cbn [run] in *.
  destruct c as [t|b|level|t fmt args|t fmt args|lev t fmt args];
    cbn [step error_messages] in *.
  - unfold init_logging in *.
    destruct (get_process_filename "errorlog") as [path|] eqn:Hpath.
    + rewrite (Hhost path eq_refl) in *. cbn [bind] in *. now apply IH.
    + unfold errorlog in *. simpl in *. rewrite Hf in *. discriminate.
  - cbn [bind] in *. now apply IH.
  - cbn [bind] in *. now apply IH.
  - cbn [bind] in *. apply IH; [|exact Hret].
    unfold verboselog. destruct (negb (verbose s)); exact Hf.
  - unfold errorlog in *. simpl in *. rewrite Hf in *. discriminate.
  - cbn [bind] in *. apply IH; [|exact Hret].
    unfold debuglog. destruct (Z.land (loglevel s) lev =? 0); exact Hf.
Qed.

Lemma debuglog_prints_iff (s : log_state) (lev : Z) (t : time_t)
    (fmt : string) (args : va_list) :
  stdout (debuglog lev t fmt args s) <> stdout s
  <-> Z.land (loglevel s) lev <> 0.
Proof.
  unfold debuglog.
  destruct (Z.eqb_spec (Z.land (loglevel s) lev) 0) as [E|E].
  - tauto.
  - split; [tauto|]. intros _. rewrite stdout_vlog. apply app_two_neq.
Qed.

(** X13: [debuglog] with [lev = 0] never prints, whatever is enabled;
    with nothing enabled it prints for no [lev]; and for [lev = a | b] it
    prints exactly when it prints for [a] or for [b]. *)
Theorem debuglog_categories (s : log_state) (a b : Z) (t : time_t)
    (fmt : string) (args : va_list) :
  debuglog 0 t fmt args s = s
  /\ debuglog a t fmt args
       (mkState 0 (verbose s) (errorfile s) (errorfilename s) (stdout s))
     = mkState 0 (verbose s) (errorfile s) (errorfilename s) (stdout s)
  /\ (stdout (debuglog (Z.lor a b) t fmt args s) <> stdout s
      <-> (stdout (debuglog a t fmt args s) <> stdout s
           \/ stdout (debuglog b t fmt args s) <> stdout s)).
Proof.
  split; [|split].
  - unfold debuglog. now rewrite Z.land_0_r.
  - reflexivity.
  - rewrite !debuglog_prints_iff, Z.land_lor_distr_r, Z.lor_eq_0_iff.
    destruct (Z.eq_dec (Z.land (loglevel s) a) 0);
      destruct (Z.eq_dec (Z.land (loglevel s) b) 0); tauto.
Qed.

End SessionFaults.

(** ** The further properties at concrete inputs *)

Lemma add_loglevel_case_insensitive_witness :
  CString.strcasecmp "IPC" "ipc" = 0
  /\ add_loglevel (host := event_ipc_host) "IPC" initial_state
     = add_loglevel (host := event_ipc_host) "ipc" initial_state.
Proof.
  split; [reflexivity|].
  exact (add_loglevel_case_insensitive (host := event_ipc_host)
           "IPC" "ipc" initial_state eq_refl).
Defined.

Lemma all_is_final_witness :
  CString.strcasecmp "All" "all" = 0
  /\ loglevel (state_of (run session
                           (add_loglevel (host := event_ipc_host) "All"
                                         initial_state)))
     = CInt.UINT64_MAX.
Proof.
  split; [reflexivity|].
  exact (all_is_final (host := event_ipc_host) "All" session initial_state
           eq_refl).
Defined.

Lemma enabled_bits_were_requested_witness :
  (List.length (loglevels (Host := event_ipc_host)) <= 30)%nat
  /\ Forall (fun level => CString.strcasecmp level "all" <> 0) ["ipc"]
  /\ Z.testbit (enable_all (host := event_ipc_host) ["ipc"] 0) 2 = true
  /\ (Z.testbit 0 2 = true
      \/ (1 <= 2 <= Z.of_nat (List.length (loglevels (Host := event_ipc_host)))
          /\ exists level name,
               In level ["ipc"]
               /\ nth_error (loglevels (Host := event_ipc_host))
                            (Z.to_nat (2 - 1)) = Some name
               /\ CString.strcasecmp name level = 0)).
Proof.
  assert (Hlen : (List.length (loglevels (Host := event_ipc_host)) <= 30)%nat)
    by (simpl; lia).
  assert (Hnot : Forall (fun level => CString.strcasecmp level "all" <> 0)
                   ["ipc"])
    by (repeat constructor; vm_compute; discriminate).
  assert (Hbit : Z.testbit (enable_all (host := event_ipc_host) ["ipc"] 0) 2
                 = true) by reflexivity.
  split; [exact Hlen|]. split; [exact Hnot|]. split; [exact Hbit|].
  exact (enabled_bits_were_requested (host := event_ipc_host) ["ipc"] 0 2
           Hlen Hnot Hbit).
Defined.

Lemma add_loglevel_exact_bit_witness :
  loglevels (Host := event_ipc_host) = ["event"] ++ "ipc" :: []
  /\ Forall (fun n => CString.strcasecmp n "IPC" <> 0) ["event"]
  /\ CString.strcasecmp "ipc" "IPC" = 0
  /\ CString.strcasecmp "IPC" "all" <> 0
  /\ Z.testbit
       (loglevel (add_loglevel (host := event_ipc_host) "IPC" initial_state))
       2 = true
  /\ Z.testbit
       (loglevel (add_loglevel (host := event_ipc_host) "IPC" initial_state))
       1 = false.
Proof.
  assert (Hb : Forall (fun n => CString.strcasecmp n "IPC" <> 0) ["event"])
    by (repeat constructor; vm_compute; discriminate).
  assert (Hall : CString.strcasecmp "IPC" "all" <> 0)
    by (vm_compute; discriminate).
  assert (Hlen : (List.length ["event"] < 30)%nat) by (simpl; lia).
  split; [reflexivity|]. split; [exact Hb|]. split; [reflexivity|].
  split; [exact Hall|]. split.
  - exact (add_loglevel_exact_bit (host := event_ipc_host) ["event"] []
             "ipc" "IPC" initial_state 2 eq_refl Hb eq_refl Hall Hlen).
  - exact (add_loglevel_exact_bit (host := event_ipc_host) ["event"] []
             "ipc" "IPC" initial_state 1 eq_refl Hb eq_refl Hall Hlen).
Defined.

Lemma add_loglevel_sign_extends_witness :
  loglevels (Host := wide_host)
  = firstn 30 thirty_one_levels ++ "debug" :: []
  /\ Forall (fun n => CString.strcasecmp n "DEBUG" <> 0)
       (firstn 30 thirty_one_levels)
  /\ CString.strcasecmp "debug" "DEBUG" = 0
  /\ CString.strcasecmp "DEBUG" "all" <> 0
  /\ List.length (firstn 30 thirty_one_levels) = 30%nat
  /\ Z.testbit
       (loglevel (add_loglevel (host := wide_host) "DEBUG" initial_state))
       40 = true.
Proof.
  assert (Hb : Forall (fun n => CString.strcasecmp n "DEBUG" <> 0)
                 (firstn 30 thirty_one_levels))
    by (repeat constructor; vm_compute; discriminate).
  assert (Hall : CString.strcasecmp "DEBUG" "all" <> 0)
    by (vm_compute; discriminate).
  destruct (add_loglevel_sign_extends (host := wide_host)
              (firstn 30 thirty_one_levels) [] "debug" "DEBUG" initial_state
              40 eq_refl Hb eq_refl Hall eq_refl) as (_ & Hhigh & _).
  split; [reflexivity|]. split; [exact Hb|]. split; [reflexivity|].
  split; [exact Hall|]. split; [reflexivity|].
  apply Hhigh. lia.
Defined.

Lemma error_log_accumulates_witness :
  errorfile used_state = Some (mkFILE [] ["old"])
  /\ calls_init emit_session = false
  /\ exists s',
       run emit_session used_state = Returns s'
       /\ errorfile s' = Some (mkFILE [] ["old"; "one"; "two"]).
Proof.
  split; [reflexivity|]. split; [reflexivity|].
  destruct (error_log_accumulates emit_session used_state ["old"]
              eq_refl eq_refl) as (s' & Hrun & Hf & _).
  exists s'. split; [exact Hrun | exact Hf].
Defined.

Lemma error_log_since_init_witness :
  get_process_filename (Host := event_ipc_host) "errorlog"
  = Some "/tmp/i3/errorlog.1234"
  /\ fopen_w_succeeds (Host := event_ipc_host) "/tmp/i3/errorlog.1234" = true
  /\ calls_init emit_session = false
  /\ exists s',
       run (Init_logging 0 :: emit_session) used_state = Returns s'
       /\ errorfile s' = Some (mkFILE [] ["one"; "two"])
       /\ errorfilename s' = Some "/tmp/i3/errorlog.1234".
Proof.
  split; [reflexivity|]. split; [reflexivity|]. split; [reflexivity|].
  exact (error_log_since_init (host := event_ipc_host)
           "/tmp/i3/errorlog.1234" 0 emit_session used_state
           eq_refl eq_refl eq_refl).
Defined.

Lemma initialised_never_faults_witness :
  get_process_filename (Host := event_ipc_host) "errorlog"
  = Some "/tmp/i3/errorlog.1234"
  /\ fopen_w_succeeds (Host := event_ipc_host) "/tmp/i3/errorlog.1234" = true
  /\ returns (run (Init_logging 0 :: session) initial_state) = true.
Proof.
  split; [reflexivity|]. split; [reflexivity|].
  exact (proj1 (initialised_never_faults (host := event_ipc_host)
                  "/tmp/i3/errorlog.1234" 0 session initial_state
                  eq_refl eq_refl)).
Defined.

Lemma no_error_log_no_errorlog_witness :
  (forall path,
      get_process_filename (Host := no_open_host) "errorlog" = Some path ->
      fopen_w_succeeds (Host := no_open_host) path = false)
  /\ errorfile initial_state = None
  /\ returns (run quiet_session initial_state) = true
  /\ error_messages quiet_session = []
  /\ errorfile (state_of (run quiet_session initial_state)) = None.
Proof.
  assert (Hhost : forall path,
             get_process_filename (Host := no_open_host) "errorlog"
             = Some path ->
             fopen_w_succeeds (Host := no_open_host) path = false)
    by (intros path _; reflexivity).
  split; [exact Hhost|]. split; [reflexivity|]. split; [reflexivity|].
  exact (no_error_log_no_errorlog (host := no_open_host) quiet_session
           initial_state Hhost eq_refl eq_refl).
Defined.

Lemma verbosity_gate_open_log_witness :
  errorfile opened_state = Some (mkFILE [] [])
  /\ verboselog (host := event_ipc_host) 0 "vis" tt
       (set_verbosity false opened_state)
     = set_verbosity false opened_state
  /\ stdout (verboselog (host := event_ipc_host) 0 "vis" tt
               (set_verbosity true opened_state))
     = ["01/01/10 00:00:00 - "; "vis"]
  /\ exists s',
       errorlog (host := event_ipc_host) 0 "err" tt
         (set_verbosity false opened_state) = Returns s'
       /\ stdout s' = ["01/01/10 00:00:00 - "; "err"]
       /\ verbose s' = false.
Proof.
  destruct (verbosity_gate_open_log (host := event_ipc_host) opened_state
              (mkFILE [] []) false 0 "vis" tt eq_refl) as (Hoff & Hon & _).
  destruct (verbosity_gate_open_log (host := event_ipc_host) opened_state
              (mkFILE [] []) false 0 "err" tt eq_refl) as (_ & _ & Herr).
  split; [reflexivity|]. split; [exact Hoff|]. split; [exact Hon|].
  exact Herr.
Defined.
